(** * Chat-scope resolution and event filtering (telethon/events/common.py)

    A shallow embedding of [_into_id_set], [EventBuilder], [EventCommon] and
    [name_inner_event], and the properties of the specification that concern
    them.  Python objects that the code mutates are threaded as explicit
    state; a raised exception is a [Raise] outcome that keeps the state
    reached so far. *)

From Stdlib Require Import ZArith Lia Ascii String.
From stdpp Require Import base option list gmap sets strings.

Local Open Scope Z_scope.

(** ** Python values *)

(** The exceptions the code raises, catches or lets through.  The three
    builtin classes stand for themselves; [Subclass base name] is a class that
    derives from [base] (as [UnicodeDecodeError] from [ValueError]), and
    [OtherError name] a class that derives from none of the three. *)
Inductive exn : Type :=
  | ValueError
  | TypeError
  | IndexError
  | OtherError (name : string)
  | Subclass (base : exn) (name : string).

#[global] Instance exn_eq_dec : EqDecision exn.
Proof. solve_decision. Defined.

(** [isinstance(e, cls)]: the class of [e] is [cls] or derives from it. *)
Fixpoint isinstance (e cls : exn) : bool :=
  if decide (e = cls) then true
  else match e with
       | Subclass base _ => isinstance base cls
       | _ => false
       end.

Inductive result (A : Type) : Type :=
  | Ok (a : A)
  | Raise (e : exn).
Arguments Ok {A} a.
Arguments Raise {A} e.

(** Modelled from the spec: the [tl.types] declarations are not part of the
    file; these are the peer-shaped values and entities it handles.  The code
    only observes their class ([isinstance], [SUBCLASS_OF_ID]) and whether
    they carry an [access_hash] attribute. *)
Inductive TLObject : Type :=
  | PeerUser (user_id : Z)
  | PeerChat (chat_id : Z)
  | PeerChannel (channel_id : Z)
  | InputPeerSelf
  | InputPeerChat (chat_id : Z)
  | InputPeerUser (user_id : Z) (access_hash : option Z)
  | InputPeerChannel (channel_id : Z) (access_hash : option Z)
  | User (id : Z) (access_hash : option Z)
  | Chat (id : Z)
  | Channel (id : Z) (access_hash : option Z).

#[global] Instance TLObject_eq_dec : EqDecision TLObject.
Proof. solve_decision. Defined.

(** [crc32(b'Peer')], [crc32(b'InputPeer')], [crc32(b'User')], [crc32(b'Chat')]. *)
Definition SUBCLASS_OF_ID (o : TLObject) : Z :=
  match o with
  | PeerUser _ | PeerChat _ | PeerChannel _ => 0x2d45687
  | InputPeerSelf | InputPeerChat _ | InputPeerUser _ _ | InputPeerChannel _ _ =>
      0xc91c90b6
  | User _ _ => 0x2da17977
  | Chat _ | Channel _ _ => 0xc5af5d94
  end.

(** [getattr(o, 'access_hash', default)]: [None] when the object has no such
    attribute, otherwise the attribute's value (itself possibly [None]). *)
Definition access_hash_attr (o : TLObject) : option (option Z) :=
  match o with
  | InputPeerUser _ h | InputPeerChannel _ h | User _ h | Channel _ h => Some h
  | _ => None
  end.

(** One element of a chat specification: an [int], a TL object, or anything
    else (a username, a phone number, ...). *)
Inductive ChatSpec : Type :=
  | SInt (n : Z)
  | STL (o : TLObject)
  | SStr (s : string).

#[global] Instance ChatSpec_eq_dec : EqDecision ChatSpec.
Proof. solve_decision. Defined.

(** The values the attribute [EventBuilder.chats] takes: what the user gave
    ([None], one specifier, a list of them) or, after [resolve], a set of
    identifiers. *)
Inductive Chats : Type :=
  | ChatsNone
  | ChatsOne (c : ChatSpec)
  | ChatsList (l : list ChatSpec)
  | ChatsSet (s : gset Z).

(** Python truthiness of the values the code tests with [not]. *)
Definition truthy_int (v : option Z) : bool :=
  match v with
  | None => false
  | Some n => negb (n =? 0)
  end.

(** ** Collaborators *)

(** The helpers of [utils] that the file calls; their bodies are outside it. *)
Class Utils : Type := {
  get_peer_id : TLObject -> Z;
  get_input_peer : TLObject -> TLObject;
}.

(** Modelled from the spec: [utils.is_list_like] distinguishes a single
    specifier from a collection. *)
Definition is_list_like (c : Chats) : bool :=
  match c with
  | ChatsList _ | ChatsSet _ => true
  | ChatsNone | ChatsOne _ => false
  end.

(** The client and its session, as the answers they give. *)
Record Client : Type := {
  get_input_entity : ChatSpec -> result TLObject;
  get_me : bool -> result TLObject;
  client_get_peer_id : ChatSpec -> result Z;
  session_get_input_entity : option TLObject -> result TLObject;
}.

(** Every call made to a collaborator is recorded. *)
Inductive Call : Type :=
  | CallGetInputEntity (chat : ChatSpec)
  | CallGetMe (input_peer : bool)
  | CallGetPeerId (peer : ChatSpec)
  | CallSessionGetInputEntity (peer : option TLObject).

#[global] Instance Call_eq_dec : EqDecision Call.
Proof. solve_decision. Defined.

(** The state shared by all objects: the class attribute
    [EventBuilder.self_id] and the trace of collaborator calls. *)
Record World : Type := {
  self_id : option Z;
  calls : list Call;
}.

(** ** State and exceptions *)

Definition M (S A : Type) : Type := S -> result A * S.

Definition ret {S A} (a : A) : M S A := fun s => (Ok a, s).

Definition bind {S A B} (m : M S A) (k : A -> M S B) : M S B :=
  fun s =>
    match m s with
    | (Ok a, s') => k a s'
    | (Raise e, s') => (Raise e, s')
    end.

Definition raise {S A} (e : exn) : M S A := fun s => (Raise e, s).

Definition gets {S A} (f : S -> A) : M S A := fun s => (Ok (f s), s).

Definition modify {S} (f : S -> S) : M S unit := fun s => (Ok tt, f s).

(** [try: m except e: h]; the handler runs for every instance of [e]. *)
Definition try_except {S A} (m : M S A) (e : exn) (h : M S A) : M S A :=
  fun s =>
    match m s with
    | (Raise e', s') => if isinstance e' e then h s' else (Raise e', s')
    | r => r
    end.

Declare Scope py_scope.
Delimit Scope py_scope with py.
Notation "'let!' x ':=' m 'in' k" := (bind m (fun x => k))
  (at level 10, x name, m at level 100, k at level 200) : py_scope.
Notation "'do!' m 'in' k" := (bind m (fun _ => k))
  (at level 10, m at level 100, k at level 200) : py_scope.
Local Open Scope py_scope.

(** An object together with the world it lives in. *)
Record Obj (T : Type) : Type := { this : T; world : World }.
Arguments this {T} o.
Arguments world {T} o.

Definition in_world {T A} (m : M World A) : M (Obj T) A :=
  fun o =>
    match m (world o) with
    | (r, w) => (r, {| this := this o; world := w |})
    end.

Definition on_this {T} (f : T -> T) : M (Obj T) unit :=
  modify (fun o => {| this := f (this o); world := world o |}).

(** An awaited call: record it, then return or raise what the collaborator
    answers. *)
Definition await {A} (c : Call) (answer : result A) : M World A :=
  fun w => (answer, {| self_id := self_id w; calls := calls w ++ [c] |}).

(** The first half of an awaited call: the request is sent, the coroutine is
    suspended until the answer comes. *)
Definition send (c : Call) : M World unit :=
  fun w => (Ok tt, {| self_id := self_id w; calls := calls w ++ [c] |}).

(** ** [_into_id_set] *)

Section into_id_set.
Context `{Utils}.

(** The [else] branch of the loop: the specifier goes to the client. *)
Definition lookup_entity (client : Client) (chat : ChatSpec) : M World (gset Z) :=
  let! chat := await (CallGetInputEntity chat) (get_input_entity client chat) in
  let! chat :=
    match chat with
    | InputPeerSelf => await (CallGetMe true) (get_me client true)
    | _ => ret chat
    end in
  ret {[ get_peer_id chat ]}.

(** The body of the [for] loop: the identifiers one element contributes. *)
Definition into_id_step (client : Client) (chat : ChatSpec) : M World (gset Z) :=
  match chat with
  | SInt n =>
      if n <? 0 then ret {[ n ]}
      else ret {[ get_peer_id (PeerUser n);
                  get_peer_id (PeerChat n);
                  get_peer_id (PeerChannel n) ]}
  | STL o =>
      if SUBCLASS_OF_ID o =? 0x2d45687 then ret {[ get_peer_id o ]}
      else lookup_entity client chat
  | SStr _ => lookup_entity client chat
  end.

Fixpoint into_id_loop (client : Client) (chats : list ChatSpec) (result : gset Z)
  : M World (gset Z) :=
  match chats with
  | [] => ret result
  | chat :: chats =>
      let! ids := into_id_step client chat in
      into_id_loop client chats (result ∪ ids)
  end.

(** The elements of a list-like value, in iteration order. *)
Definition items (chats : Chats) : list ChatSpec :=
  match chats with
  | ChatsList l => l
  | ChatsSet s => SInt <$> elements s
  | ChatsNone | ChatsOne _ => []
  end.

(** [chats] after [if not utils.is_list_like(chats): chats = (chats,)]. *)
Definition as_iterable (chats : Chats) : list ChatSpec :=
  if is_list_like chats then items chats
  else match chats with ChatsOne c => [c] | _ => [] end.

Definition _into_id_set (client : Client) (chats : Chats) : M World Chats :=
  match chats with
  | ChatsNone => ret ChatsNone
  | _ =>
      let! result := into_id_loop client (as_iterable chats) ∅ in
      ret (ChatsSet result)
  end.

(** Whether the loop hands the specifier to the client. *)
Definition needs_lookup (chat : ChatSpec) : bool :=
  match chat with
  | SInt _ => false
  | STL o => negb (SUBCLASS_OF_ID o =? 0x2d45687)
  | SStr _ => true
  end.
End into_id_set.

(** ** [EventCommon] *)

(** Attribute values, as [__dict__] holds them. *)
Inductive PyVal : Type :=
  | PNone
  | PBool (b : bool)
  | PInt (n : Z)
  | PStr (s : string)
  | PObj (o : TLObject)
  | PEntities (m : gmap Z TLObject)
  | PClient (c : Client).

Definition of_option {A} (f : A -> PyVal) (v : option A) : PyVal :=
  match v with
  | Some a => f a
  | None => PNone
  end.

Module EventCommon.

(** An instance: the attributes [__init__] sets, the attributes a subclass
    adds ([attrs]), and the class attribute [_event_name] as attribute
    lookup on the instance finds it. *)
Record t : Type := {
  _entities : gmap Z TLObject;
  _client : option Client;
  _chat_peer : option TLObject;
  _message_id : option Z;
  _input_chat : option TLObject;
  _chat : option TLObject;
  _broadcast : bool;
  original_update : PyVal;
  attrs : gmap string PyVal;
  _event_name : string;
}.

Definition __init__ (chat_peer : option TLObject) (msg_id : option Z)
    (broadcast : bool) : t :=
  {| _entities := ∅; _client := None; _chat_peer := chat_peer;
     _message_id := msg_id; _input_chat := None; _chat := None;
     _broadcast := broadcast; original_update := PNone;
     attrs := ∅; _event_name := "Event" |}.

Definition set_client (v : option Client) (e : t) : t :=
  {| _entities := _entities e; _client := v; _chat_peer := _chat_peer e;
     _message_id := _message_id e; _input_chat := _input_chat e;
     _chat := _chat e; _broadcast := _broadcast e;
     original_update := original_update e; attrs := attrs e;
     _event_name := _event_name e |}.

Definition set_chat (v : option TLObject) (e : t) : t :=
  {| _entities := _entities e; _client := _client e; _chat_peer := _chat_peer e;
     _message_id := _message_id e; _input_chat := _input_chat e;
     _chat := v; _broadcast := _broadcast e;
     original_update := original_update e; attrs := attrs e;
     _event_name := _event_name e |}.

Definition set_input_chat (v : option TLObject) (e : t) : t :=
  {| _entities := _entities e; _client := _client e; _chat_peer := _chat_peer e;
     _message_id := _message_id e; _input_chat := v;
     _chat := _chat e; _broadcast := _broadcast e;
     original_update := original_update e; attrs := attrs e;
     _event_name := _event_name e |}.

(** The property [client]. *)
Definition client (e : t) : option Client := _client e.

(** The instance dictionary. *)
Definition __dict__ (e : t) : gmap string PyVal :=
  <["_entities" := PEntities (_entities e)]>
  (<["_client" := of_option PClient (_client e)]>
  (<["_chat_peer" := of_option PObj (_chat_peer e)]>
  (<["_message_id" := of_option PInt (_message_id e)]>
  (<["_input_chat" := of_option PObj (_input_chat e)]>
  (<["_chat" := of_option PObj (_chat e)]>
  (<["_broadcast" := PBool (_broadcast e)]>
  (<["original_update" := original_update e]> (attrs e)))))))).

Section methods.
Context `{Utils}.

(** Modelled from the spec: the property [ChatGetter.chat_id] is the
    canonical identifier of the chat reference, [None] without one. *)
Definition chat_id (e : t) : option Z := get_peer_id <$> _chat_peer e.

(** [dict.get] with a key that may be [None]. *)
Definition dict_get (d : gmap Z TLObject) (k : option Z) : option TLObject :=
  match k with
  | Some k => d !! k
  | None => None
  end.

(** Truthiness of [getattr(o, 'access_hash', True)]. *)
Definition has_access_hash (o : TLObject) : bool :=
  match access_hash_attr o with
  | None => true
  | Some h => truthy_int h
  end.

Definition _set_client (client : Client) : M (Obj t) unit :=
  do! on_this (set_client (Some client)) in
  let! self := gets this in
  do! on_this (set_chat (dict_get (_entities self) (chat_id self))) in
  let! self := gets this in
  match _chat self with
  | None => ret tt
  | Some chat =>
      do! on_this (set_input_chat (Some (get_input_peer chat))) in
      if negb (has_access_hash (get_input_peer chat)) then
        try_except
          (let! p := in_world
                       (await (CallSessionGetInputEntity (_chat_peer self))
                          (session_get_input_entity client (_chat_peer self))) in
           on_this (set_input_chat (Some p)))
          ValueError
          (on_this (set_input_chat None))
      else ret tt
  end.

(** The comprehension [{k: v for k, v in items if k[0] != '_'}]. *)
Fixpoint public_items (kvs : list (string * PyVal)) : result (gmap string PyVal) :=
  match kvs with
  | [] => Ok ∅
  | (k, v) :: kvs =>
      match k with
      | EmptyString => Raise IndexError
      | String c _ =>
          match public_items kvs with
          | Ok d => Ok (if decide (c = "_"%char) then d else <[k := v]> d)
          | Raise e => Raise e
          end
      end
  end.

Definition to_dict (e : t) : result (gmap string PyVal) :=
  match public_items (map_to_list (__dict__ e)) with
  | Ok d => Ok (<["_" := PStr (_event_name e)]> d)
  | Raise e => Raise e
  end.
End methods.
End EventCommon.

(** ** [EventBuilder] *)

Module EventBuilder.

Record t : Type := {
  chats : Chats;
  blacklist_chats : bool;
  _self_id : option Z;
}.

Definition __init__ (chats : Chats) (blacklist_chats : bool) : t :=
  {| chats := chats; blacklist_chats := blacklist_chats; _self_id := None |}.

Definition set_chats (v : Chats) (b : t) : t :=
  {| chats := v; blacklist_chats := blacklist_chats b; _self_id := _self_id b |}.

Definition set_self_id (v : option Z) (w : World) : World :=
  {| self_id := v; calls := calls w |}.

(** [x in chats], for whatever [chats] holds. *)
Definition contains (chats : Chats) (x : Z) : result bool :=
  match chats with
  | ChatsSet s => Ok (bool_decide (x ∈ s))
  | ChatsList l => Ok (bool_decide (SInt x ∈ l))
  | ChatsNone | ChatsOne _ => Raise TypeError
  end.

Definition of_result {S A} (r : result A) : M S A := fun s => (r, s).

Section methods.
Context `{Utils}.

Definition resolve (client : Client) : M (Obj t) unit :=
  let! self := gets this in
  let! chats := in_world (_into_id_set client (chats self)) in
  do! on_this (set_chats chats) in
  let! w := gets world in
  if negb (truthy_int (self_id w)) then
    let! me := in_world (await (CallGetPeerId (SStr "me"))
                           (client_get_peer_id client (SStr "me"))) in
    in_world (modify (set_self_id (Some me)))
  else ret tt.

(** [resolve] up to [await client.get_peer_id('me')]: the chats are resolved
    and stored, the cache is tested and, when it is empty, the request is
    sent; the answer is [true] when the coroutine is then suspended.  (The
    awaits inside [_into_id_set] read no shared state and are not split.) *)
Definition resolve_until_await (client : Client) : M (Obj t) bool :=
  let! self := gets this in
  let! chats := in_world (_into_id_set client (chats self)) in
  do! on_this (set_chats chats) in
  let! w := gets world in
  if negb (truthy_int (self_id w)) then
    do! in_world (send (CallGetPeerId (SStr "me"))) in
    ret true
  else ret false.

(** [resolve] resumed with the answer of the provider. *)
Definition resolve_after_await (client : Client) : M (Obj t) unit :=
  let! me := of_result (client_get_peer_id client (SStr "me")) in
  in_world (modify (set_self_id (Some me))).

(** [utils.get_peer_id] is defined on peer-shaped values; an event
    without a chat reference gives it [None], a [TypeError]. *)
Definition peer_id_of (p : option TLObject) : result Z :=
  match p with
  | Some p => Ok (get_peer_id p)
  | None => Raise TypeError
  end.

(** The state is the builder and the event it is given. *)
Definition filter : M (t * EventCommon.t) (option EventCommon.t) :=
  let! self := gets fst in
  let! event := gets snd in
  match chats self with
  | ChatsNone => ret (Some event)
  | chats =>
      let! id := of_result (peer_id_of (EventCommon._chat_peer event)) in
      let! inside := of_result (contains chats id) in
      if Bool.eqb inside (blacklist_chats self) then ret None
      else ret (Some event)
  end.
End methods.
End EventBuilder.

(** ** [name_inner_event] *)

(** Classes are objects on a heap; the attribute [Event] of a class is a
    reference to another class. *)
Record PyClass : Type := {
  __module__ : string;
  __name__ : string;
  __qualname__ : string;
  Event : option positive;
  class_event_name : option string;
}.

Definition set_event_name (v : string) (c : PyClass) : PyClass :=
  {| __module__ := __module__ c; __name__ := __name__ c;
     __qualname__ := __qualname__ c; Event := Event c;
     class_event_name := Some v |}.

(** [str(cls)]: the module and the qualified name of the class. *)
Definition class_str (c : PyClass) : string :=
  "<class '" +:+ __module__ c +:+ "." +:+ __qualname__ c +:+ "'>".

Record Classes : Type := {
  heap : gmap positive PyClass;
  warnings : list string;
}.

Definition deref (l : positive) : M Classes PyClass :=
  fun s =>
    match heap s !! l with
    | Some c => (Ok c, s)
    | None => (Raise (OtherError "ReferenceError"), s)
    end.

Definition store (l : positive) (c : PyClass) : M Classes unit :=
  modify (fun s => {| heap := <[l := c]> (heap s); warnings := warnings s |}).

Definition warn (msg : string) : M Classes unit :=
  modify (fun s => {| heap := heap s; warnings := warnings s ++ [msg] |}).

Definition name_inner_event (cls : positive) : M Classes positive :=
  let! c := deref cls in
  do! match Event c with
      | Some ev =>
          let! inner := deref ev in
          store ev (set_event_name (__name__ c +:+ ".Event") inner)
      | None =>
          warn ("Class " +:+ class_str c +:+ " does not have a inner Event")
      end in
  ret cls.

(** ** Test doubles *)

(** An encoding that keeps the three kinds of peer apart for every id. *)
Definition stub_peer_id (o : TLObject) : Z :=
  match o with
  | PeerUser n | InputPeerUser n _ | User n _ => 3 * n
  | PeerChat n | InputPeerChat n | Chat n => 3 * n + 1
  | PeerChannel n | InputPeerChannel n _ | Channel n _ => 3 * n + 2
  | InputPeerSelf => 0
  end.

Definition stub_input_peer (o : TLObject) : TLObject :=
  match o with
  | User n h | InputPeerUser n h => InputPeerUser n h
  | Chat n | InputPeerChat n | PeerChat n => InputPeerChat n
  | Channel n h | InputPeerChannel n h => InputPeerChannel n h
  | PeerUser n => InputPeerUser n None
  | PeerChannel n => InputPeerChannel n None
  | InputPeerSelf => InputPeerSelf
  end.

Definition stub_utils : Utils :=
  {| get_peer_id := stub_peer_id; get_input_peer := stub_input_peer |}.

(** A client that knows nobody: every lookup fails, the account has id [me]. *)
Definition stub_client (me : Z) : Client :=
  {| get_input_entity := fun _ => Raise ValueError;
     get_me := fun _ => Ok (InputPeerUser me (Some 1));
     client_get_peer_id := fun _ => Ok me;
     session_get_input_entity := fun _ => Raise ValueError |}.

Definition empty_world : World := {| self_id := None; calls := [] |}.

(** The number of identity lookups in a trace. *)
Definition identity_lookups (cs : list Call) : nat :=
  length (base.filter (fun c => c = CallGetPeerId (SStr "me")) cs).

(** One world follows another without touching the identity cache and
    without an identity lookup. *)
Definition quiet (w w' : World) : Prop :=
  self_id w' = self_id w ∧
  exists cs, calls w' = calls w ++ cs ∧ identity_lookups cs = 0%nat.

(** A [resolve] coroutine: not started, suspended at the identity lookup, or
    finished with its outcome. *)
Inductive Task : Type :=
  | Fresh (b : EventBuilder.t)
  | Waiting (b : EventBuilder.t)
  | Finished (b : EventBuilder.t) (r : result unit).



(** The event loop runs one coroutine up to its next suspension. *)
Definition advance `{Utils} (client : Client) (tk : Task) (w : World)
    : Task * World :=
  match tk with
  | Fresh b =>
      match EventBuilder.resolve_until_await client {| this := b; world := w |} with
      | (Ok true, o) => (Waiting (this o), world o)
      | (Ok false, o) => (Finished (this o) (Ok tt), world o)
      | (Raise e, o) => (Finished (this o) (Raise e), world o)
      end
  | Waiting b =>
      match EventBuilder.resolve_after_await client {| this := b; world := w |} with
      | (r, o) => (Finished (this o) r, world o)
      end
  | Finished _ _ => (tk, w)
  end.

(** The coroutines run as a schedule says: each entry is the index of the
    coroutine the event loop runs next. *)
Fixpoint run_schedule `{Utils} (client : Client) (schedule : list nat)
    (tasks : list Task) (w : World) : list Task * World :=
  match schedule with
  | [] => (tasks, w)
  | i :: schedule =>
      match tasks !! i with
      | Some tk =>
          let '(tk', w') := advance client tk w in
          run_schedule client schedule (<[i := tk']> tasks) w'
      | None => run_schedule client schedule tasks w
      end
  end.

(** The schedule of [n] coroutines, from index [k] on, that do not overlap:
    each is started and resumed before the next is started. *)
Fixpoint one_by_one (k n : nat) : list nat :=
  match n with
  | O => []
  | S n => k :: k :: one_by_one (S k) n
  end.




(** [resolve] called on each builder in turn, each call running to its end
    before the next starts, by a caller that goes on after a failure; the
    builders share the world. *)
Fixpoint resolve_each `{Utils} (client : Client) (bs : list EventBuilder.t)
    (w : World) : list (result unit * EventBuilder.t) * World :=
  match bs with
  | [] => ([], w)
  | b :: bs =>
      let '(r, o) := EventBuilder.resolve client {| this := b; world := w |} in
      let '(rs, w') := resolve_each client bs (world o) in
      ((r, this o) :: rs, w')
  end.

(** An event from channel 123, as the stub encodes it. *)
Definition channel_event : EventCommon.t :=
  EventCommon.__init__ (Some (PeerChannel 123)) None false.

(** The same event once the dispatcher has given it a snapshot that knows
    channel 123, with or without its access hash. *)
Definition with_entities (m : gmap Z TLObject) (e : EventCommon.t) : EventCommon.t :=
  {| EventCommon._entities := m;
     EventCommon._client := EventCommon._client e;
     EventCommon._chat_peer := EventCommon._chat_peer e;
     EventCommon._message_id := EventCommon._message_id e;
     EventCommon._input_chat := EventCommon._input_chat e;
     EventCommon._chat := EventCommon._chat e;
     EventCommon._broadcast := EventCommon._broadcast e;
     EventCommon.original_update := EventCommon.original_update e;
     EventCommon.attrs := EventCommon.attrs e;
     EventCommon._event_name := EventCommon._event_name e |}.

Definition known_event : EventCommon.t :=
  with_entities {[ 371 := Channel 123 (Some 99) ]} channel_event.

Definition min_event : EventCommon.t :=
  with_entities {[ 371 := Channel 123 None ]} channel_event.

(** A client whose identity provider is down. *)
Definition offline_client : Client :=
  {| get_input_entity := fun _ => Raise ValueError;
     get_me := fun _ => Raise (OtherError "ConnectionError");
     client_get_peer_id := fun _ => Raise (OtherError "ConnectionError");
     session_get_input_entity := fun _ => Raise ValueError |}.

(** The class [NewMessage], its inner class [Event], and a subclass [Album]
    defined in another module. *)
Definition class_NewMessage : PyClass :=
  {| __module__ := "telethon.events.newmessage"; __name__ := "NewMessage";
     __qualname__ := "NewMessage"; Event := Some 2%positive;
     class_event_name := None |}.

Definition class_Event : PyClass :=
  {| __module__ := "telethon.events.newmessage"; __name__ := "Event";
     __qualname__ := "NewMessage.Event"; Event := None;
     class_event_name := Some "Event" |}.

Definition class_Album : PyClass :=
  {| __module__ := "telethon.events.album"; __name__ := "Album";
     __qualname__ := "Album"; Event := Some 2%positive;
     class_event_name := None |}.

(** A heap with [NewMessage] and its inner [Event]. *)
Definition two_classes : Classes :=
  {| heap := {[ 1%positive := class_NewMessage;
                2%positive := class_Event ]};
     warnings := [] |}.

(** A client that knows the account itself and one user. *)
Definition directory_client : Client :=
  {| get_input_entity := fun chat =>
       match chat with
       | SStr "me" => Ok InputPeerSelf
       | SStr "durov" => Ok (InputPeerUser 1 (Some 9))
       | _ => Raise ValueError
       end;
     get_me := fun _ => Ok (InputPeerUser 7 (Some 1));
     client_get_peer_id := fun _ => Ok 7;
     session_get_input_entity := fun _ => Raise ValueError |}.

(** A client whose session store cannot be read. *)
Definition broken_session_client : Client :=
  {| get_input_entity := fun _ => Raise ValueError;
     get_me := fun _ => Ok (InputPeerUser 7 (Some 1));
     client_get_peer_id := fun _ => Ok 7;
     session_get_input_entity := fun _ => Raise (OtherError "OperationalError") |}.

(** A client whose session store holds bytes that do not decode. *)
Definition garbled_session_client : Client :=
  {| get_input_entity := fun _ => Raise ValueError;
     get_me := fun _ => Ok (InputPeerUser 7 (Some 1));
     client_get_peer_id := fun _ => Ok 7;
     session_get_input_entity := fun _ =>
       Raise (Subclass ValueError "UnicodeDecodeError") |}.

(** [two_classes] and a subclass [Album] of [NewMessage] that inherits its
    [Event]. *)
Definition three_classes : Classes :=
  {| heap := <[ 3%positive := class_Album ]> (heap two_classes);
     warnings := [] |}.

(** A name that begins with the internal marker. *)
Definition is_private (k : string) : bool :=
  match k with
  | String c _ => bool_decide (c = "_"%char)
  | EmptyString => false
  end.

(** What one specifier contributes, or the exception it ends with; the
    answer does not depend on the world the loop body runs in. *)
Definition ids_of `{Utils} (client : Client) (chat : ChatSpec) : result (gset Z) :=
  (into_id_step client chat empty_world).1.

(** The calls the loop body makes for one specifier. *)
Definition step_calls (client : Client) (chat : ChatSpec) : list Call :=
  if needs_lookup chat then
    match get_input_entity client chat with
    | Ok InputPeerSelf => [CallGetInputEntity chat; CallGetMe true]
    | _ => [CallGetInputEntity chat]
    end
  else [].

Definition is_entity_lookup (c : Call) : bool :=
  match c with
  | CallGetInputEntity _ => true
  | _ => false
  end.

(** The number of entity lookups in a trace. *)
Definition entity_lookups (cs : list Call) : nat :=
  length (List.filter is_entity_lookup cs).

(** ** Properties of [EventBuilder.filter] *)

Section filter_facts.
Context `{Utils}.
Import EventBuilder.

Lemma filter_unbounded (self : t) (e : EventCommon.t) :
  chats self = ChatsNone -> filter (self, e) = (Ok (Some e), (self, e)).
Proof.
  intros Hc. unfold filter, bind, gets, ret. simpl. by rewrite Hc.
Qed.

Lemma filter_bounded (self : t) (e : EventCommon.t) (S : gset Z) (p : TLObject) :
  chats self = ChatsSet S ->
  EventCommon._chat_peer e = Some p ->
  filter (self, e) =
    (Ok (if Bool.eqb (bool_decide (get_peer_id p ∈ S)) (blacklist_chats self)
         then None else Some e), (self, e)).
Proof.
  intros Hc Hp. unfold filter, bind, gets, ret, of_result. simpl.
  rewrite Hc, Hp. simpl.
  by destruct (Bool.eqb _ _).
Qed.

Lemma filter_state (self : t) (e : EventCommon.t) :
  (filter (self, e)).2 = (self, e).
Proof.
  unfold filter, bind, gets, ret, of_result. simpl.
  destruct (chats self); simpl; try done;
    destruct (EventCommon._chat_peer e); simpl; try done;
    destruct (Bool.eqb _ _); done.
Qed.
End filter_facts.

Section filter_claims.
Context `{Utils}.
Import EventBuilder.

(** C1. With a resolved finite scope [S], a blacklist flag [b] and an event
    whose chat reference has canonical identifier [get_peer_id p], [filter]
    returns the event exactly when [(get_peer_id p ∈ S) != b] and returns
    [None] otherwise; so for the same scope and event the whitelist decision
    and the blacklist decision are negations of each other. *)
Theorem filter_decision (S : gset Z) (b : bool) (sid : option Z)
    (e : EventCommon.t) (p : TLObject) :
  EventCommon._chat_peer e = Some p ->
  let self m := {| chats := ChatsSet S; blacklist_chats := m; _self_id := sid |} in
  ((filter (self b, e)).1 = Ok (Some e) <-> bool_decide (get_peer_id p ∈ S) ≠ b) ∧
  ((filter (self b, e)).1 = Ok None <-> bool_decide (get_peer_id p ∈ S) = b) ∧
  ((filter (self false, e)).1 = Ok (Some e) <->
     (filter (self true, e)).1 ≠ Ok (Some e)).
Proof.
  intros Hp self.
  assert (Hf : forall m, (filter (self m, e)).1 =
      Ok (if Bool.eqb (bool_decide (get_peer_id p ∈ S)) m then None else Some e)).
  { intros m. by rewrite (filter_bounded (self m) e S p). }
  rewrite !Hf.
  destruct (bool_decide (get_peer_id p ∈ S)), b; simpl;
    repeat split; intros; try congruence; try done.
Qed.

(** C10. [filter] changes neither the builder nor the event; whatever it
    returns is the event it was given or [None]; and it does return on a
    resolved builder when the scope is unbounded or the event carries a chat
    reference. *)
Theorem filter_frame (self : t) (e : EventCommon.t) :
  (filter (self, e)).2 = (self, e) ∧
  (forall v, (filter (self, e)).1 = Ok v -> v = Some e ∨ v = None) ∧
  (chats self = ChatsNone ∨
     ((exists S, chats self = ChatsSet S) ∧ is_Some (EventCommon._chat_peer e)) ->
   (filter (self, e)).1 = Ok (Some e) ∨ (filter (self, e)).1 = Ok None).
Proof.
  split; [apply filter_state|]. split.
  - intros v. unfold filter, bind, gets, ret, of_result. simpl.
    destruct (chats self); simpl;
      try destruct (EventCommon._chat_peer e); simpl;
      try destruct (Bool.eqb _ _); simpl; intros Hv;
      inversion Hv; auto.
  - intros [Hc | [[S Hc] [p Hp]]].
    + left. by rewrite filter_unbounded.
    + rewrite (filter_bounded self e S p Hc Hp). simpl.
      destruct (Bool.eqb _ _); auto.
Qed.
End filter_claims.

(** ** Properties of [_into_id_set] and [resolve] *)



Section resolve_facts.
Context `{Utils}.
Import EventBuilder.


Lemma resolve_unfold (client : Client) (b : t) (w : World) :
  resolve client {| this := b; world := w |} =
    match _into_id_set client (chats b) w with
    | (Raise e, w1) => (Raise e, {| this := b; world := w1 |})
    | (Ok c, w1) =>
        if truthy_int (self_id w1) then
          (Ok tt, {| this := set_chats c b; world := w1 |})
        else
          let w2 := {| self_id := self_id w1;
                       calls := calls w1 ++ [CallGetPeerId (SStr "me")] |} in
          match client_get_peer_id client (SStr "me") with
          | Ok me => (Ok tt, {| this := set_chats c b;
                                world := set_self_id (Some me) w2 |})
          | Raise e => (Raise e, {| this := set_chats c b; world := w2 |})
          end
    end.
Proof.
  unfold resolve, bind, gets, in_world, on_this, modify, ret, await. simpl.
  destruct (_into_id_set client (chats b) w) as [[c|e] w1]; simpl; [|done].
  destruct (truthy_int (self_id w1)); simpl; [done|].
  by destruct (client_get_peer_id client (SStr "me")).
Qed.
End resolve_facts.

Section scope_claims.
Context `{Utils}.
Import EventBuilder.

(** C2, amended. An absent chat specification resolves to the unbounded
    scope, and [filter] on an unbounded scope returns every event unchanged,
    whatever the blacklist flag; an empty collection resolves to the empty
    finite scope, not to the unbounded one. *)
Theorem absent_is_unbounded (client : Client) (flag : bool) (sid : option Z)
    (w : World) (e : EventCommon.t) :
  let self := {| chats := ChatsNone; blacklist_chats := flag; _self_id := sid |} in
  let after := (resolve client {| this := self; world := w |}).2 in
  _into_id_set client ChatsNone w = (Ok ChatsNone, w) ∧
  this after = self ∧
  filter (this after, e) = (Ok (Some e), (this after, e)) ∧
  _into_id_set client (ChatsList []) w = (Ok (ChatsSet ∅), w).
Proof.
  intros self after.
  assert (Ha : this after = self).
  { unfold after. rewrite resolve_unfold. simpl. unfold ret.
    destruct (truthy_int (self_id w)); [done|].
    by destruct (client_get_peer_id client (SStr "me")). }
  repeat split; try done.
  rewrite Ha. by apply filter_unbounded.
Qed.

End scope_claims.

(** C2 as stated fails: an empty list resolves to a bounded scope, and a
    whitelist filter with it drops the event. *)
Lemma empty_collection_is_bounded :
  let o := (EventBuilder.resolve (H := stub_utils) (stub_client 7)
              {| this := EventBuilder.__init__ (ChatsList []) false;
                 world := empty_world |}).2 in
  EventBuilder.chats (this o) ≠ ChatsNone ∧
  (EventBuilder.filter (H := stub_utils) (this o, channel_event)).1
    ≠ Ok (Some channel_event).
Proof. split; vm_compute; discriminate. Qed.



(** ** The identity cache and failures of [resolve] *)

Lemma identity_lookups_app (cs ds : list Call) :
  identity_lookups (cs ++ ds) = (identity_lookups cs + identity_lookups ds)%nat.
Proof. unfold identity_lookups. by rewrite filter_app, length_app. Qed.


Lemma quiet_refl (w : World) : quiet w w.
Proof. split; [done|]. exists []. by rewrite app_nil_r. Qed.

Lemma quiet_trans (w1 w2 w3 : World) : quiet w1 w2 -> quiet w2 w3 -> quiet w1 w3.
Proof.
  intros [Hs1 (cs & Hc1 & Hn1)] [Hs2 (ds & Hc2 & Hn2)]. split; [congruence|].
  exists (cs ++ ds). split.
  - by rewrite Hc2, Hc1, app_assoc.
  - rewrite identity_lookups_app. lia.
Qed.


Section resolve_world.
Context `{Utils}.
Import EventBuilder.

Lemma lookup_entity_quiet (client : Client) (c : ChatSpec) (w : World) :
  quiet w (lookup_entity client c w).2.
Proof.
  unfold lookup_entity, bind, await, ret.
  destruct (get_input_entity client c) as [o|e]; simpl.
  - destruct o; simpl;
      try (split; [done|]; by exists [CallGetInputEntity c]).
    destruct (get_me client true); simpl; (split; [done|]);
      exists [CallGetInputEntity c; CallGetMe true];
      by rewrite <- app_assoc.
  - split; [done|]. by exists [CallGetInputEntity c].
Qed.

Lemma into_id_step_quiet (client : Client) (c : ChatSpec) (w : World) :
  quiet w (into_id_step client c w).2.
Proof.
  destruct c as [n|o|s]; simpl.
  - destruct (n <? 0); apply quiet_refl.
  - destruct (SUBCLASS_OF_ID o =? 0x2d45687);
      [apply quiet_refl | apply lookup_entity_quiet].
  - apply lookup_entity_quiet.
Qed.

Lemma into_id_loop_quiet (client : Client) (l : list ChatSpec) (acc : gset Z)
    (w : World) :
  quiet w (into_id_loop client l acc w).2.
Proof.
  revert acc w. induction l as [|c l IH]; intros acc w; simpl.
  - apply quiet_refl.
  - unfold bind. pose proof (into_id_step_quiet client c w) as Hq.
    destruct (into_id_step client c w) as [[ids|e] w1]; simpl in *; [|done].
    eapply quiet_trans; [exact Hq | apply IH].
Qed.

Lemma into_id_set_quiet (client : Client) (c : Chats) (w : World) :
  quiet w (_into_id_set client c w).2.
Proof.
  unfold _into_id_set.
  destruct c; try apply quiet_refl; unfold bind, ret;
    match goal with
    | |- context [into_id_loop client ?l ∅ w] =>
        pose proof (into_id_loop_quiet client l ∅ w) as Hq;
        destruct (into_id_loop client l ∅ w) as [[ids|e] w1]
    end; done.
Qed.

Lemma into_id_loop_app (client : Client) (l1 l2 : list ChatSpec) (acc : gset Z)
    (w : World) :
  into_id_loop client (l1 ++ l2) acc w =
    match into_id_loop client l1 acc w with
    | (Ok acc', w') => into_id_loop client l2 acc' w'
    | (Raise e, w') => (Raise e, w')
    end.
Proof.
  revert acc w. induction l1 as [|c l1 IH]; intros acc w; simpl; [done|].
  unfold bind. destruct (into_id_step client c w) as [[ids|e] w1]; [|done].
  apply IH.
Qed.

Lemma into_id_step_fails (client : Client) (c : ChatSpec) (e : exn) (w : World) :
  needs_lookup c = true ->
  get_input_entity client c = Raise e ->
  into_id_step client c w =
    (Raise e, {| self_id := self_id w; calls := calls w ++ [CallGetInputEntity c] |}).
Proof.
  intros Hn He.
  assert (Hl : lookup_entity client c w =
    (Raise e, {| self_id := self_id w; calls := calls w ++ [CallGetInputEntity c] |})).
  { unfold lookup_entity, bind, await. by rewrite He. }
  destruct c as [n|o|s]; simpl in *; [done| |done].
  by destruct (SUBCLASS_OF_ID o =? 0x2d45687).
Qed.

End resolve_world.

Section resolve_claims.
Context `{Utils}.
Import EventBuilder.

Lemma into_id_set_bounded (client : Client) (c : Chats) (w : World) :
  c ≠ ChatsNone ->
  _into_id_set client c w =
    match into_id_loop client (as_iterable c) ∅ w with
    | (Ok ids, w') => (Ok (ChatsSet ids), w')
    | (Raise e, w') => (Raise e, w')
    end.
Proof.
  intros Hc. destruct c; [done|..]; unfold _into_id_set, bind, ret;
    match goal with
    | |- context [into_id_loop client ?l ∅ w] =>
        destruct (into_id_loop client l ∅ w) as [[ids|e] w1]
    end; done.
Qed.


Lemma resolve_each_cons (client : Client) (b : t) (bs : list t) (w : World) :
  resolve_each client (b :: bs) w =
    let ro := resolve client {| this := b; world := w |} in
    let rest := resolve_each client bs (world ro.2) in
    ((ro.1, this ro.2) :: rest.1, rest.2).
Proof.
  simpl. destruct (resolve client _) as [r o]. simpl.
  by destruct (resolve_each client bs (world o)).
Qed.



(** [resolve] is its two halves, one run after the other. *)
Lemma until_await_run (client : Client) (b : t) (w : World) :
  resolve_until_await client {| this := b; world := w |} =
    match _into_id_set client (chats b) w with
    | (Raise e, w1) => (Raise e, {| this := b; world := w1 |})
    | (Ok c, w1) =>
        if truthy_int (self_id w1) then
          (Ok false, {| this := set_chats c b; world := w1 |})
        else
          (Ok true,
           {| this := set_chats c b;
              world := {| self_id := self_id w1;
                          calls := calls w1 ++ [CallGetPeerId (SStr "me")] |} |})
    end.
Proof.
  unfold resolve_until_await, bind, gets, in_world, on_this, modify, ret, send.
  simpl.
  destruct (_into_id_set client (chats b) w) as [[c|e] w1]; simpl; [|done].
  by destruct (truthy_int (self_id w1)).
Qed.

Lemma after_await_run (client : Client) (b : t) (w : World) :
  resolve_after_await client {| this := b; world := w |} =
    match client_get_peer_id client (SStr "me") with
    | Ok me => (Ok tt, {| this := b; world := set_self_id (Some me) w |})
    | Raise e => (Raise e, {| this := b; world := w |})
    end.
Proof.
  unfold resolve_after_await, bind, of_result, in_world, modify. simpl.
  by destruct (client_get_peer_id client (SStr "me")).
Qed.

Lemma resolve_split (client : Client) (b : t) (w : World) :
  resolve client {| this := b; world := w |} =
    match resolve_until_await client {| this := b; world := w |} with
    | (Ok true, o) => resolve_after_await client o
    | (Ok false, o) => (Ok tt, o)
    | (Raise e, o) => (Raise e, o)
    end.
Proof.
  rewrite resolve_unfold, until_await_run.
  destruct (_into_id_set client (chats b) w) as [[c|e] w1]; [|done].
  destruct (truthy_int (self_id w1)); [done|].
  rewrite after_await_run.
  by destruct (client_get_peer_id client (SStr "me")).
Qed.






Lemma advance_twice (client : Client) (b : t) (w : World) :
  advance client (advance client (Fresh b) w).1 (advance client (Fresh b) w).2 =
    (Finished (this (resolve client {| this := b; world := w |}).2)
              (resolve client {| this := b; world := w |}).1,
     world (resolve client {| this := b; world := w |}).2).
Proof.
  rewrite resolve_split. simpl.
  destruct (resolve_until_await client {| this := b; world := w |})
    as [[[|]|e] [b' w']]; simpl; [|done|done].
  by destruct (resolve_after_await client {| this := b'; world := w' |}).
Qed.

(** Calls that do not overlap are the schedule [one_by_one]. *)
Lemma resolve_each_is_schedule (client : Client) (bs : list t)
    (past : list Task) (w : World) :
  run_schedule client (one_by_one (length past) (length bs))
               (past ++ (Fresh <$> bs)) w =
    (past ++ ((fun rb => Finished rb.2 rb.1) <$> (resolve_each client bs w).1),
     (resolve_each client bs w).2).
Proof.
  revert past w. induction bs as [|b bs IH]; intros past w; [done|].
  rewrite resolve_each_cons. cbn [length one_by_one run_schedule fmap list_fmap].
  rewrite list_lookup_middle by done.
  pose proof (advance_twice client b w) as Hadv.
  destruct (advance client (Fresh b) w) as [tk1 w1]. simpl in Hadv.
  rewrite insert_app_r_alt by done. rewrite Nat.sub_diag. cbn [insert list_insert].
  rewrite list_lookup_middle by done. rewrite Hadv.
  rewrite insert_app_r_alt by done. rewrite Nat.sub_diag. cbn [insert list_insert].
  rewrite (cons_middle _ past), app_assoc.
  replace (S (length past)) with (length (past ++ [Finished
      (this (resolve client {| this := b; world := w |}).2)
      (resolve client {| this := b; world := w |}).1]))
    by (rewrite length_app; simpl; lia).
  rewrite IH. simpl. by rewrite <- app_assoc.
Qed.


(** C7. When the client's entity lookup raises for a specifier, after the
    specifiers before it were resolved, [resolve] raises that same exception
    to its caller: the failing lookup was called once and nothing after it,
    the builder (its [chats] too) is as before the call, and so is the
    identity cache. *)
Theorem lookup_failure_propagates (client : Client) (b : t) (w w1 : World)
    (l1 l2 : list ChatSpec) (c : ChatSpec) (ids : gset Z) (e : exn) :
  chats b ≠ ChatsNone ->
  as_iterable (chats b) = l1 ++ c :: l2 ->
  into_id_loop client l1 ∅ w = (Ok ids, w1) ->
  needs_lookup c = true ->
  get_input_entity client c = Raise e ->
  resolve client {| this := b; world := w |} =
    (Raise e,
     {| this := b;
        world := {| self_id := self_id w;
                    calls := calls w1 ++ [CallGetInputEntity c] |} |}).
Proof.
  intros Hc Hit Hpre Hn He.
  rewrite resolve_unfold, into_id_set_bounded by done.
  rewrite Hit, into_id_loop_app, Hpre. simpl. unfold bind.
  rewrite (into_id_step_fails client c e w1 Hn He).
  pose proof (into_id_loop_quiet client l1 ∅ w) as [Hs _].
  rewrite Hpre in Hs. simpl in Hs. by rewrite Hs.
Qed.
End resolve_claims.

(** ** Binding an event to its client *)

Section set_client_claims.
Context `{Utils}.
Import EventCommon.

Lemma set_client_unfold (client : Client) (e : t) (w : World) :
  _set_client client {| this := e; world := w |} =
    let found := dict_get (_entities e) (chat_id e) in
    let e1 := set_chat found (set_client (Some client) e) in
    match found with
    | None => (Ok tt, {| this := e1; world := w |})
    | Some chat =>
        let e2 := set_input_chat (Some (get_input_peer chat)) e1 in
        if has_access_hash (get_input_peer chat) then
          (Ok tt, {| this := e2; world := w |})
        else
          let w' := {| self_id := self_id w;
                       calls := calls w ++ [CallSessionGetInputEntity (_chat_peer e)] |} in
          match session_get_input_entity client (_chat_peer e) with
          | Ok p => (Ok tt, {| this := set_input_chat (Some p) e2; world := w' |})
          | Raise ex =>
              if isinstance ex ValueError
              then (Ok tt, {| this := set_input_chat None e2; world := w' |})
              else (Raise ex, {| this := e2; world := w' |})
          end
    end.
Proof.
  unfold _set_client, bind, on_this, modify, gets, ret. simpl.
  change (chat_id (set_client (Some client) e)) with (chat_id e).
  destruct (dict_get (_entities e) (chat_id e)) as [chat|]; simpl; [|done].
  destruct (has_access_hash (get_input_peer chat)); simpl; [done|].
  unfold try_except, bind, in_world, await. simpl.
  destruct (session_get_input_entity client (_chat_peer e)) as [p|ex]; simpl; [done|].
  by destruct (isinstance ex ValueError).
Qed.

(** C5. Binding an event whose chat is in the entity snapshot with a usable
    input form sets the input chat to that form; binding an event whose chat
    is not in the snapshot returns normally and leaves the chat entity and,
    for an event not bound before, the input chat undefined. *)
Theorem bind_sets_input_chat (client : Client) (e : t) (w : World) :
  let o := _set_client client {| this := e; world := w |} in
  (forall ent, dict_get (_entities e) (chat_id e) = Some ent ->
     has_access_hash (get_input_peer ent) = true ->
     o.1 = Ok tt ∧ _chat (this o.2) = Some ent ∧
     _input_chat (this o.2) = Some (get_input_peer ent)) ∧
  (dict_get (_entities e) (chat_id e) = None ->
     _input_chat e = None ->
     o.1 = Ok tt ∧ _chat (this o.2) = None ∧ _input_chat (this o.2) = None).
Proof.
  intros o. unfold o. rewrite set_client_unfold. split.
  - intros ent Hf Hu. rewrite Hf. simpl. by rewrite Hu.
  - intros Hf Hi. rewrite Hf. simpl. done.
Qed.

(** C6. When the input form of the chat entity found in the snapshot has an
    [access_hash] that is [None] or zero (a form without that attribute, as
    the self input peer, counts as usable), the session is asked once for the
    original chat reference; if it raises [ValueError], binding still returns
    normally and the input chat is undefined, and if it answers, the input
    chat is its answer. *)
Theorem missing_hash_falls_back (client : Client) (e : t) (w : World)
    (ent : TLObject) :
  dict_get (_entities e) (chat_id e) = Some ent ->
  has_access_hash (get_input_peer ent) = false ->
  let o := _set_client client {| this := e; world := w |} in
  calls (world o.2) = calls w ++ [CallSessionGetInputEntity (_chat_peer e)] ∧
  (session_get_input_entity client (_chat_peer e) = Raise ValueError ->
     o.1 = Ok tt ∧ _input_chat (this o.2) = None) ∧
  (forall p, session_get_input_entity client (_chat_peer e) = Ok p ->
     o.1 = Ok tt ∧ _input_chat (this o.2) = Some p) ∧
  (forall x, has_access_hash x = false <->
     access_hash_attr x = Some None ∨ access_hash_attr x = Some (Some 0)) ∧
  has_access_hash InputPeerSelf = true.
Proof.
  intros Hf Hu o. unfold o. rewrite set_client_unfold, Hf. simpl. rewrite Hu.
  split; [|split; [|split; [|split]]].
  - destruct (session_get_input_entity client (_chat_peer e)) as [p|ex]; [done|].
    by destruct (isinstance ex ValueError).
  - intros Hs. by rewrite Hs.
  - intros p Hs. by rewrite Hs.
  - intros x. unfold has_access_hash.
    destruct (access_hash_attr x) as [[h|]|]; simpl.
    + destruct (Z.eqb_spec h 0); simpl; split.
      * intros _. right. by subst.
      * done.
      * done.
      * intros [?|?]; congruence.
    + split; auto.
    + split; [done | intros [?|?]; done].
  - done.
Qed.
End set_client_claims.

(** ** The structured representation *)

Section to_dict_claims.
Import EventCommon.

Lemma public_items_ok (kvs : list (string * PyVal)) :
  Forall (fun kv => kv.1 ≠ EmptyString) kvs ->
  exists d, public_items kvs = Ok d ∧
    forall k, d !! k =
      if is_private k then None else (list_to_map kvs : gmap string PyVal) !! k.
Proof.
  induction kvs as [|[k v] kvs IH]; intros Hne.
  - exists ∅. split; [done|]. intros k. rewrite !lookup_empty. by destruct (is_private k).
  - apply Forall_cons in Hne as [Hk Hne]. simpl in Hk.
    destruct (IH Hne) as (d & Hd & Hlook).
    destruct k as [|c s]; [done|]. simpl. rewrite Hd.
    eexists. split; [done|]. intros k.
    destruct (decide (c = "_"%char)) as [Hc|Hc].
    + rewrite Hlook. destruct (is_private k) eqn:Hp; [done|].
      rewrite lookup_insert_ne; [done|].
      intros <-. simpl in Hp. by rewrite bool_decide_eq_false in Hp.
    + destruct (decide (String c s = k)) as [<-|Hneq].
      * rewrite !lookup_insert_eq. simpl.
        by rewrite bool_decide_eq_false_2.
      * rewrite !lookup_insert_ne by done. apply Hlook.
Qed.

Lemma dict_no_empty_name (e : t) :
  attrs e !! EmptyString = None -> __dict__ e !! EmptyString = None.
Proof. intros Ha. unfold __dict__. by rewrite !lookup_insert_ne. Qed.

(** C8. For an instance whose attributes all have a name, [to_dict] returns
    a dictionary that holds the event name under the discriminator ["_"];
    every other entry is an attribute of the instance whose name does not
    begin with an underscore, and every such attribute is there. *)
Theorem to_dict_public (e : t) :
  attrs e !! EmptyString = None ->
  exists d, to_dict e = Ok d ∧
    d !! "_" = Some (PStr (_event_name e)) ∧
    (forall k, k ≠ "_" -> is_private k = true -> d !! k = None) ∧
    (forall k, is_private k = false -> d !! k = __dict__ e !! k).
Proof.
  intros Ha. apply dict_no_empty_name in Ha.
  destruct (public_items_ok (map_to_list (__dict__ e))) as (d & Hd & Hlook).
  { apply Forall_forall. intros [k v] Hin Hk. simpl in Hk. subst k.
    apply elem_of_map_to_list in Hin. congruence. }
  rewrite list_to_map_to_list in Hlook.
  unfold to_dict. rewrite Hd. eexists. split; [done|]. split; [|split].
  - by rewrite lookup_insert_eq.
  - intros k Hk Hp. rewrite lookup_insert_ne by done. by rewrite Hlook, Hp.
  - intros k Hp. rewrite lookup_insert_ne.
    + by rewrite Hlook, Hp.
    + intros <-. done.
Qed.
End to_dict_claims.

(** ** Naming the inner event class *)

(** C9. For a class with an inner [Event] class, [name_inner_event] sets that
    class's event name to the outer class's name followed by [".Event"] and
    warns of nothing; for a class without one it only adds a warning and
    raises nothing; either way it returns the class it was given, and no
    class other than the inner one is modified. *)
Theorem name_inner_event_renames (cls : positive) (s : Classes) (c : PyClass) :
  heap s !! cls = Some c ->
  (forall ev inner, Event c = Some ev -> heap s !! ev = Some inner ->
     let s' := (name_inner_event cls s).2 in
     (name_inner_event cls s).1 = Ok cls ∧
     heap s' !! ev = Some (set_event_name (__name__ c +:+ ".Event") inner) ∧
     (forall l, l ≠ ev -> heap s' !! l = heap s !! l) ∧
     warnings s' = warnings s) ∧
  (Event c = None ->
     let s' := (name_inner_event cls s).2 in
     (name_inner_event cls s).1 = Ok cls ∧
     heap s' = heap s ∧
     warnings s' =
       warnings s ++ ["Class " +:+ class_str c +:+ " does not have a inner Event"]).
Proof.
  intros Hcls. split.
  - intros ev inner Hev Hinner s'. unfold s', name_inner_event, bind, deref, ret.
    rewrite Hcls, Hev. simpl. unfold bind. rewrite Hinner. simpl.
    repeat split.
    + by rewrite lookup_insert_eq.
    + intros l Hl. by rewrite lookup_insert_ne.
  - intros Hev s'. unfold s', name_inner_event, bind, deref, ret.
    rewrite Hcls, Hev. simpl. done.
Qed.

(** ** The properties on concrete inputs *)

(** The scope of [chats=[123]] under the stub encoding keeps the event from
    channel 123 as a whitelist and drops it as a blacklist. *)
Lemma filter_decision_witness :
  let scope : gset Z := {[ 369; 370; 371 ]} in
  (EventBuilder.filter (H := stub_utils)
     ({| EventBuilder.chats := ChatsSet scope;
         EventBuilder.blacklist_chats := false;
         EventBuilder._self_id := None |}, channel_event)).1
    = Ok (Some channel_event) ∧
  (EventBuilder.filter (H := stub_utils)
     ({| EventBuilder.chats := ChatsSet scope;
         EventBuilder.blacklist_chats := true;
         EventBuilder._self_id := None |}, channel_event)).1
    = Ok None.
Proof.
  intros scope. split.
  - apply (filter_decision (H := stub_utils) scope false None channel_event
             (PeerChannel 123) eq_refl).
    vm_compute. discriminate.
  - apply (filter_decision (H := stub_utils) scope true None channel_event
             (PeerChannel 123) eq_refl).
    vm_compute. reflexivity.
Defined.

Lemma filter_frame_witness :
  (EventBuilder.filter (H := stub_utils)
     (EventBuilder.__init__ (ChatsSet {[ 5 ]}) false, channel_event)).2
    = (EventBuilder.__init__ (ChatsSet {[ 5 ]}) false, channel_event).
Proof.
  apply (filter_frame (H := stub_utils)
           (EventBuilder.__init__ (ChatsSet {[ 5 ]}) false) channel_event).
Defined.



Lemma lookup_failure_propagates_witness :
  let b := EventBuilder.__init__ (ChatsList [SInt 123; SStr "durov"; SInt 5]) false in
  EventBuilder.resolve (H := stub_utils) (stub_client 7)
    {| this := b; world := empty_world |}
  = (Raise ValueError,
     {| this := b;
        world := {| self_id := None;
                    calls := [CallGetInputEntity (SStr "durov")] |} |}).
Proof.
  intros b.
  apply (lookup_failure_propagates (H := stub_utils) (stub_client 7) b
           empty_world empty_world [SInt 123] [SInt 5] (SStr "durov")
           (∅ ∪ {[ 369; 370; 371 ]}) ValueError);
    [discriminate | reflexivity | reflexivity | reflexivity | reflexivity].
Defined.

Lemma bind_sets_input_chat_witness :
  let bound := (EventCommon._set_client (H := stub_utils) (stub_client 7)
                  {| this := known_event; world := empty_world |}).2 in
  let unbound := (EventCommon._set_client (H := stub_utils) (stub_client 7)
                    {| this := channel_event; world := empty_world |}).2 in
  EventCommon._input_chat (this bound) = Some (InputPeerChannel 123 (Some 99)) ∧
  EventCommon._chat (this unbound) = None ∧
  EventCommon._input_chat (this unbound) = None.
Proof.
  intros bound unbound. split.
  - destruct (bind_sets_input_chat (H := stub_utils) (stub_client 7)
                known_event empty_world) as [Hin _].
    apply (Hin (Channel 123 (Some 99))); reflexivity.
  - destruct (bind_sets_input_chat (H := stub_utils) (stub_client 7)
                channel_event empty_world) as [_ Hout].
    apply Hout; reflexivity.
Defined.

Lemma missing_hash_falls_back_witness :
  let o := EventCommon._set_client (H := stub_utils) (stub_client 7)
             {| this := min_event; world := empty_world |} in
  o.1 = Ok tt ∧ EventCommon._input_chat (this o.2) = None.
Proof.
  intros o.
  destruct (missing_hash_falls_back (H := stub_utils) (stub_client 7) min_event
              empty_world (Channel 123 None) eq_refl eq_refl) as (_ & Hval & _).
  apply Hval. reflexivity.
Defined.

Lemma to_dict_public_witness :
  exists d, EventCommon.to_dict channel_event = Ok d ∧
    d !! "_" = Some (PStr "Event") ∧ d !! "_chat_peer" = None.
Proof.
  destruct (to_dict_public channel_event eq_refl) as (d & Hd & Hname & Hpriv & _).
  exists d. split; [exact Hd|]. split; [exact Hname|].
  apply Hpriv; [discriminate | reflexivity].
Defined.

Lemma name_inner_event_renames_witness :
  (name_inner_event 1%positive two_classes).1 = Ok 1%positive ∧
  class_event_name <$> heap (name_inner_event 1%positive two_classes).2 !! 2%positive
    = Some (Some "NewMessage.Event") ∧
  warnings (name_inner_event 2%positive two_classes).2
    = ["Class <class 'telethon.events.newmessage.NewMessage.Event'> does not have a inner Event"].
Proof.
  destruct (name_inner_event_renames 1%positive two_classes
              class_NewMessage eq_refl)
    as [Hren _].
  destruct (Hren 2%positive
              class_Event eq_refl eq_refl)
    as (Hret & Hev & _ & _).
  destruct (name_inner_event_renames 2%positive two_classes
              class_Event eq_refl)
    as [_ Hwarn].
  destruct (Hwarn eq_refl) as (_ & _ & Hw).
  split; [exact Hret|]. split; [|exact Hw].
  rewrite Hev. reflexivity.
Defined.

(** ** How [_into_id_set] runs *)

Section into_id_set_runs.
Context `{Utils}.

Lemma world_eta (w : World) : {| self_id := self_id w; calls := calls w ++ [] |} = w.
Proof. destruct w. simpl. by rewrite app_nil_r. Qed.

Lemma lookup_entity_run (client : Client) (c : ChatSpec) (w : World) :
  lookup_entity client c w =
    ((lookup_entity client c empty_world).1,
     {| self_id := self_id w;
        calls := calls w ++
          match get_input_entity client c with
          | Ok InputPeerSelf => [CallGetInputEntity c; CallGetMe true]
          | _ => [CallGetInputEntity c]
          end |}).
Proof.
  unfold lookup_entity, bind, await, ret.
  destruct (get_input_entity client c) as [o|e]; simpl; [|done].
  destruct o; simpl; try done.
  destruct (get_me client true); simpl; by rewrite <- app_assoc.
Qed.

Lemma into_id_step_run (client : Client) (c : ChatSpec) (w : World) :
  into_id_step client c w =
    (ids_of client c,
     {| self_id := self_id w; calls := calls w ++ step_calls client c |}).
Proof.
  unfold ids_of, step_calls. destruct c as [n|o|s]; simpl.
  - rewrite world_eta. by destruct (n <? 0).
  - destruct (SUBCLASS_OF_ID o =? 0x2d45687); simpl.
    + by rewrite world_eta.
    + apply lookup_entity_run.
  - apply lookup_entity_run.
Qed.

Lemma into_id_loop_member (client : Client) (l : list ChatSpec) (acc r : gset Z)
    (w : World) :
  (into_id_loop client l acc w).1 = Ok r ->
  forall x, x ∈ r <->
    x ∈ acc ∨ exists c ids, c ∈ l ∧ ids_of client c = Ok ids ∧ x ∈ ids.
Proof.
  revert acc w. induction l as [|c l IH]; intros acc w Hr x; simpl in Hr.
  - injection Hr as <-. split; [auto|]. intros [?|(c & ids & Hc & _)]; [done|].
    by apply elem_of_nil in Hc.
  - unfold bind in Hr. rewrite into_id_step_run in Hr.
    destruct (ids_of client c) as [ids|e] eqn:Hc; [|done].
    rewrite (IH _ _ Hr x), elem_of_union. split.
    + intros [[?|?]|(c' & ids' & Hin & Hids & Hx)]; [by left| |].
      * right. exists c, ids. by rewrite elem_of_cons; auto.
      * right. exists c', ids'. by rewrite elem_of_cons; auto.
    + intros [?|(c' & ids' & Hin & Hids & Hx)]; [by left; left|].
      apply elem_of_cons in Hin as [->|Hin].
      * left. right. congruence.
      * right. by exists c', ids'.
Qed.

Lemma into_id_loop_succeeds (client : Client) (l : list ChatSpec) (acc : gset Z)
    (w : World) :
  (exists r, (into_id_loop client l acc w).1 = Ok r) <->
  Forall (fun c => exists ids, ids_of client c = Ok ids) l.
Proof.
  revert acc w. induction l as [|c l IH]; intros acc w; simpl.
  - split; [by constructor | by exists acc].
  - unfold bind. rewrite into_id_step_run, Forall_cons.
    destruct (ids_of client c) as [ids|e] eqn:Hc.
    + rewrite IH. split; [|by intros [_ ?]]. intros ?. split; [by exists ids|done].
    + simpl. split; [by intros [? ?] | by intros [[? ?] _]].
Qed.

Lemma into_id_loop_calls (client : Client) (l : list ChatSpec) (acc r : gset Z)
    (w : World) :
  (into_id_loop client l acc w).1 = Ok r ->
  calls (into_id_loop client l acc w).2 = calls w ++ concat (step_calls client <$> l).
Proof.
  revert acc w. induction l as [|c l IH]; intros acc w Hr; simpl in *.
  - by rewrite app_nil_r.
  - unfold bind in *. rewrite into_id_step_run in *.
    destruct (ids_of client c) as [ids|e]; [|done].
    rewrite (IH _ _ Hr). simpl. by rewrite app_assoc.
Qed.

Lemma into_id_set_fst (client : Client) (c : Chats) (w : World) :
  c ≠ ChatsNone ->
  (_into_id_set client c w).1 =
    match (into_id_loop client (as_iterable c) ∅ w).1 with
    | Ok ids => Ok (ChatsSet ids)
    | Raise e => Raise e
    end.
Proof.
  intros Hc. rewrite into_id_set_bounded by done.
  by destruct (into_id_loop client (as_iterable c) ∅ w) as [[ids|e] w1].
Qed.

Lemma into_id_set_snd (client : Client) (c : Chats) (w : World) :
  c ≠ ChatsNone ->
  (_into_id_set client c w).2 = (into_id_loop client (as_iterable c) ∅ w).2.
Proof.
  intros Hc. rewrite into_id_set_bounded by done.
  by destruct (into_id_loop client (as_iterable c) ∅ w) as [[ids|e] w1].
Qed.

(** X1. [_into_id_set] returns a scope exactly when every specifier can be
    turned into identifiers, and the scope is then the union of what the
    specifiers contribute: nothing is left out and nothing else is added. *)
Theorem scope_is_union (client : Client) (c : Chats) (w : World) :
  c ≠ ChatsNone ->
  ((exists r, (_into_id_set client c w).1 = Ok (ChatsSet r)) <->
   Forall (fun s => exists ids, ids_of client s = Ok ids) (as_iterable c)) ∧
  (forall r, (_into_id_set client c w).1 = Ok (ChatsSet r) ->
   forall x, x ∈ r <->
     exists s ids, s ∈ as_iterable c ∧ ids_of client s = Ok ids ∧ x ∈ ids).
Proof.
  intros Hc. rewrite into_id_set_fst by done. split.
  - rewrite <- (into_id_loop_succeeds client (as_iterable c) ∅ w).
    destruct (into_id_loop client (as_iterable c) ∅ w).1 as [ids|e]; split.
    + intros _. by exists ids.
    + intros _. by exists ids.
    + by intros [? ?].
    + by intros [? ?].
  - intros r Hr x.
    destruct (into_id_loop client (as_iterable c) ∅ w).1 as [ids|e] eqn:Hl; [|done].
    injection Hr as <-. rewrite (into_id_loop_member _ _ _ _ _ Hl x).
    split; [|auto]. intros [Hx|?]; [|done]. by apply not_elem_of_empty in Hx.
Qed.

Lemma step_calls_local (client : Client) (c : ChatSpec) :
  needs_lookup c = false -> step_calls client c = [].
Proof. intros Hn. unfold step_calls. by rewrite Hn. Qed.

Lemma ids_of_local (client1 client2 : Client) (c : ChatSpec) :
  needs_lookup c = false ->
  ids_of client1 c = ids_of client2 c ∧ exists ids, ids_of client1 c = Ok ids.
Proof.
  unfold ids_of. destruct c as [n|o|s]; simpl; [| |done].
  - intros _. destruct (n <? 0); simpl; eauto.
  - destruct (SUBCLASS_OF_ID o =? 0x2d45687); [|done]. simpl. eauto.
Qed.

Lemma into_id_loop_local (client1 client2 : Client) (l : list ChatSpec)
    (acc : gset Z) (w : World) :
  Forall (fun c => needs_lookup c = false) l ->
  into_id_loop client1 l acc w = into_id_loop client2 l acc w ∧
  exists r, into_id_loop client1 l acc w = (Ok r, w).
Proof.
  revert acc. induction l as [|c l IH]; intros acc Hl; simpl.
  - split; [done|]. by exists acc.
  - apply Forall_cons in Hl as [Hc Hl]. unfold bind.
    rewrite (into_id_step_run client1), (into_id_step_run client2).
    rewrite !step_calls_local, !world_eta by done.
    destruct (ids_of_local client1 client2 c Hc) as [Heq [ids Hids]].
    rewrite <- Heq, Hids. by apply IH.
Qed.

(** X2. A specification made only of integers and [Peer] objects is resolved
    without the client: [_into_id_set] returns a scope, calls no collaborator
    and gives the same answer with any client. *)
Theorem local_specifiers_need_no_client (client1 client2 : Client) (c : Chats)
    (w : World) :
  Forall (fun s => needs_lookup s = false) (as_iterable c) ->
  _into_id_set client1 c w = _into_id_set client2 c w ∧
  exists r, _into_id_set client1 c w = (Ok r, w) ∧ (c ≠ ChatsNone -> r ≠ ChatsNone).
Proof.
  intros Hl.
  assert (c = ChatsNone ∨ c ≠ ChatsNone) as [->|Hc]
    by (destruct c; [by left | by right..]).
  { split; [done|]. by exists ChatsNone. }
  rewrite !into_id_set_bounded by done.
  destruct (into_id_loop_local client1 client2 _ ∅ w Hl) as [Heq [r Hr]].
  rewrite <- Heq, Hr. split; [done|]. by exists (ChatsSet r).
Qed.

Lemma entity_lookups_app (cs ds : list Call) :
  entity_lookups (cs ++ ds) = (entity_lookups cs + entity_lookups ds)%nat.
Proof. unfold entity_lookups. by rewrite List.filter_app, length_app. Qed.

Lemma entity_lookups_steps (client : Client) (l : list ChatSpec) :
  entity_lookups (concat (step_calls client <$> l)) =
    length (List.filter needs_lookup l).
Proof.
  induction l as [|c l IH]; [done|].
  rewrite fmap_cons. cbn [concat List.filter].
  rewrite entity_lookups_app, IH. unfold step_calls.
  destruct (needs_lookup c); [|done].
  destruct (get_input_entity client c) as [[]|]; done.
Qed.

(** X3. When [_into_id_set] returns, the calls it made are, specifier by
    specifier in iteration order, one [get_input_entity] for each specifier
    that is neither an integer nor a [Peer] (followed by [get_me] when the
    answer was the self input peer); a specifier given twice is looked up
    twice. *)
Theorem one_lookup_per_specifier (client : Client) (c r : Chats) (w : World) :
  c ≠ ChatsNone ->
  (_into_id_set client c w).1 = Ok r ->
  let w' := (_into_id_set client c w).2 in
  calls w' = calls w ++ concat (step_calls client <$> as_iterable c) ∧
  entity_lookups (calls w') =
    (entity_lookups (calls w) + length (List.filter needs_lookup (as_iterable c)))%nat.
Proof.
  intros Hc Hr w'. unfold w'. rewrite into_id_set_snd by done.
  rewrite into_id_set_fst in Hr by done.
  destruct (into_id_loop client (as_iterable c) ∅ w).1 as [ids|e] eqn:Hl; [|done].
  rewrite (into_id_loop_calls _ _ _ _ _ Hl). split; [done|].
  by rewrite entity_lookups_app, entity_lookups_steps.
Qed.
End into_id_set_runs.

(** ** [resolve] beyond the first call, and [resolve] followed by [filter] *)

Section resolve_runs.
Context `{Utils}.
Import EventBuilder.

Lemma into_id_loop_marked (client : Client) (xs : list Z) (acc : gset Z) (w : World) :
  Forall (fun n => n < 0) xs ->
  into_id_loop client (SInt <$> xs) acc w = (Ok (acc ∪ list_to_set xs), w).
Proof.
  revert acc. induction xs as [|n xs IH]; intros acc Hneg; simpl.
  - unfold ret. by rewrite (right_id_L ∅ (∪)).
  - apply Forall_cons in Hneg as [Hn Hneg]. unfold bind.
    destruct (Z.ltb_spec n 0); [|lia]. simpl.
    rewrite (IH _ Hneg). by rewrite (assoc_L (∪)).
Qed.

Lemma set_chats_same (b : t) : set_chats (chats b) b = b.
Proof. by destruct b. Qed.

(** X4. Resolving again a scope whose identifiers are all negative (marked)
    gives the same scope and calls no collaborator; the builder is as it
    was. *)
Theorem marked_scope_is_kept (client : Client) (b : t) (w : World) (S : gset Z) :
  chats b = ChatsSet S ->
  (forall x, x ∈ S -> x < 0) ->
  _into_id_set client (ChatsSet S) w = (Ok (ChatsSet S), w) ∧
  this (resolve client {| this := b; world := w |}).2 = b.
Proof.
  intros Hb Hneg.
  assert (Hset : _into_id_set client (ChatsSet S) w = (Ok (ChatsSet S), w)).
  { rewrite into_id_set_bounded by done.
    change (as_iterable (ChatsSet S)) with (SInt <$> elements S).
    rewrite into_id_loop_marked.
    - by rewrite (left_id_L ∅ (∪)), list_to_set_elements_L.
    - apply Forall_forall. intros x Hx. apply Hneg. by apply elem_of_elements. }
  split; [done|]. rewrite resolve_unfold, Hb, Hset, <- Hb, set_chats_same.
  destruct (truthy_int (self_id w)); [done|].
  by destruct (client_get_peer_id client (SStr "me")).
Qed.

(** X5. When the chats were resolved but the identity provider raises,
    [resolve] raises that exception after it has stored the resolved scope in
    the builder; the cache keeps its value and the provider was asked once. *)
Theorem identity_failure_after_scope (client : Client) (b : t) (w w1 : World)
    (c : Chats) (e : exn) :
  _into_id_set client (chats b) w = (Ok c, w1) ->
  truthy_int (self_id w) = false ->
  client_get_peer_id client (SStr "me") = Raise e ->
  resolve client {| this := b; world := w |} =
    (Raise e,
     {| this := set_chats c b;
        world := {| self_id := self_id w;
                    calls := calls w1 ++ [CallGetPeerId (SStr "me")] |} |}).
Proof.
  intros Hset Ht He. rewrite resolve_unfold, Hset.
  pose proof (into_id_set_quiet client (chats b) w) as [Hs _].
  rewrite Hset in Hs. simpl in Hs. by rewrite Hs, Ht, He.
Qed.

(** X6. Whatever its outcome, [resolve] leaves the blacklist flag and the
    instance attribute [_self_id] of the builder alone, only adds to the
    trace, and changes the identity cache only from an empty (or zero) value
    to the answer of the provider. *)
Theorem resolve_frame (client : Client) (b : t) (w : World) :
  let o := (resolve client {| this := b; world := w |}).2 in
  blacklist_chats (this o) = blacklist_chats b ∧
  _self_id (this o) = _self_id b ∧
  (exists cs, calls (world o) = calls w ++ cs) ∧
  (self_id (world o) = self_id w ∨
   truthy_int (self_id w) = false ∧
   exists v, client_get_peer_id client (SStr "me") = Ok v ∧
             self_id (world o) = Some v).
Proof.
  intros o. unfold o. rewrite resolve_unfold.
  pose proof (into_id_set_quiet client (chats b) w) as Hq.
  destruct (_into_id_set client (chats b) w) as [[c|e] w1]; simpl in Hq;
    destruct Hq as [Hs (cs & Hc & _)].
  - rewrite Hs. destruct (truthy_int (self_id w)) eqn:Ht; simpl.
    + repeat split; eauto.
    + destruct (client_get_peer_id client (SStr "me")) as [v|e] eqn:Hme; simpl;
        (repeat split; [rewrite Hc, <- app_assoc; eauto|]); [right|left]; eauto.
  - simpl. repeat split; eauto.
Qed.

(** X7. After a [resolve] that returned, an event with a chat reference is
    kept by a whitelist and dropped by a blacklist when some specifier of the
    builder contributes its identifier, and the other way round when none
    does. *)
Theorem resolved_filter_decision (client : Client) (b : t) (w : World)
    (e : EventCommon.t) (p : TLObject) :
  chats b ≠ ChatsNone ->
  (resolve client {| this := b; world := w |}).1 = Ok tt ->
  EventCommon._chat_peer e = Some p ->
  let b' := this (resolve client {| this := b; world := w |}).2 in
  let listed := exists s ids, s ∈ as_iterable (chats b) ∧
                   ids_of client s = Ok ids ∧ get_peer_id p ∈ ids in
  (listed -> (filter (b', e)).1 = Ok (if blacklist_chats b then None else Some e)) ∧
  (¬ listed -> (filter (b', e)).1 = Ok (if blacklist_chats b then Some e else None)).
Proof.
  intros Hc Hok Hp b' listed.
  assert (exists r, (into_id_loop client (as_iterable (chats b)) ∅ w).1 = Ok r ∧
                    b' = set_chats (ChatsSet r) b) as (r & Hr & Hb').
  { unfold b'. rewrite resolve_unfold in *.
    rewrite into_id_set_bounded in * by done.
    destruct (into_id_loop client (as_iterable (chats b)) ∅ w) as [[r|ex] w1];
      [|done].
    exists r. split; [done|]. destruct (truthy_int (self_id w1)); [done|].
    by destruct (client_get_peer_id client (SStr "me")). }
  assert (Hf : (filter (b', e)).1 =
      Ok (if Bool.eqb (bool_decide (get_peer_id p ∈ r)) (blacklist_chats b)
          then None else Some e)).
  { rewrite (filter_bounded b' e r p); [by rewrite Hb' | by rewrite Hb' | done]. }
  assert (Hl : get_peer_id p ∈ r <-> listed).
  { rewrite (into_id_loop_member _ _ _ _ _ Hr). unfold listed.
    split; [|auto]. intros [Hx|?]; [|done]. by apply not_elem_of_empty in Hx. }
  rewrite Hf. split.
  - intros Hin. apply Hl in Hin. rewrite bool_decide_eq_true_2 by done.
    by destruct (blacklist_chats b).
  - intros Hout. rewrite bool_decide_eq_false_2 by (by rewrite Hl).
    by destruct (blacklist_chats b).
Qed.
End resolve_runs.

(** ** More on binding *)

Section set_client_runs.
Context `{Utils}.
Import EventCommon.

Lemma set_client_frame (c : Client) (e : t) (w : World) :
  let e' := this (_set_client c {| this := e; world := w |}).2 in
  _client e' = Some c ∧
  _chat e' = dict_get (_entities e) (chat_id e) ∧
  _entities e' = _entities e ∧ _chat_peer e' = _chat_peer e ∧
  _message_id e' = _message_id e ∧ _broadcast e' = _broadcast e ∧
  original_update e' = original_update e ∧ attrs e' = attrs e ∧
  _event_name e' = _event_name e.
Proof.
  intros e'. unfold e'. rewrite set_client_unfold. simpl.
  destruct (dict_get (_entities e) (chat_id e)) as [chat|]; [|done].
  destruct (has_access_hash (get_input_peer chat)); [done|].
  destruct (session_get_input_entity c (_chat_peer e)) as [p|ex]; [done|].
  by destruct (isinstance ex ValueError).
Qed.

(** X8. Whatever its outcome, [_set_client] records the client, so the
    property [client] returns it; sets the chat entity to what the snapshot
    holds for the chat identifier; and leaves the snapshot, the chat
    reference, the message id, the broadcast flag, the original update and
    the other attributes as they were. *)
Theorem bind_records_client (c : Client) (e : t) (w : World) :
  let e' := this (_set_client c {| this := e; world := w |}).2 in
  client e' = Some c ∧
  _chat e' = dict_get (_entities e) (chat_id e) ∧
  _entities e' = _entities e ∧ _chat_peer e' = _chat_peer e ∧
  _message_id e' = _message_id e ∧ _broadcast e' = _broadcast e ∧
  original_update e' = original_update e ∧ attrs e' = attrs e ∧
  _event_name e' = _event_name e.
Proof. intros e'. unfold client. apply set_client_frame. Qed.

(** X9. An exception of the session lookup is caught exactly when it is an
    instance of [ValueError] (the class itself or one derived from it): then
    [_set_client] returns and the input chat is undefined; any other
    exception is raised by [_set_client], and the input chat is left at the
    input form that lacks the access hash. *)
Theorem session_error_caught_by_class (c : Client) (e : t) (w : World)
    (ent : TLObject) (ex : exn) :
  dict_get (_entities e) (chat_id e) = Some ent ->
  has_access_hash (get_input_peer ent) = false ->
  session_get_input_entity c (_chat_peer e) = Raise ex ->
  let o := _set_client c {| this := e; world := w |} in
  _chat (this o.2) = Some ent ∧
  (isinstance ex ValueError = true ->
     o.1 = Ok tt ∧ _input_chat (this o.2) = None) ∧
  (isinstance ex ValueError = false ->
     o.1 = Raise ex ∧ _input_chat (this o.2) = Some (get_input_peer ent)).
Proof.
  intros Hf Hu Hs o. unfold o. rewrite set_client_unfold, Hf. simpl.
  rewrite Hu, Hs. by destruct (isinstance ex ValueError).
Qed.

(** X10. [_set_client] asks the session exactly when the chat entity is in
    the snapshot and its input form lacks the access hash; otherwise it calls
    no collaborator at all. *)
Theorem session_asked_only_without_hash (c : Client) (e : t) (w : World) :
  let w' := world (_set_client c {| this := e; world := w |}).2 in
  match dict_get (_entities e) (chat_id e) with
  | Some ent =>
      if has_access_hash (get_input_peer ent) then w' = w
      else calls w' = calls w ++ [CallSessionGetInputEntity (_chat_peer e)] ∧
           self_id w' = self_id w
  | None => w' = w
  end.
Proof.
  intros w'. unfold w'. rewrite set_client_unfold. simpl.
  destruct (dict_get (_entities e) (chat_id e)) as [chat|]; [|done].
  destruct (has_access_hash (get_input_peer chat)); [done|].
  destruct (session_get_input_entity c (_chat_peer e)) as [p|ex]; [done|].
  by destruct (isinstance ex ValueError).
Qed.
End set_client_runs.

(** ** More on the structured representation *)

Section to_dict_runs.
Import EventCommon.

Lemma public_items_raises (kvs : list (string * PyVal)) :
  Exists (fun kv => kv.1 = EmptyString) kvs -> public_items kvs = Raise IndexError.
Proof.
  induction kvs as [|[k v] kvs IH]; intros Hex.
  - by apply Exists_nil in Hex.
  - destruct k as [|c s]; [done|]. simpl.
    apply Exists_cons in Hex as [Hk|Hex]; [done|]. by rewrite IH.
Qed.

Lemma dict_public_lookup (e : t) (k : string) :
  is_private k = false ->
  __dict__ e !! k = (<["original_update" := original_update e]> (attrs e)) !! k.
Proof.
  intros Hk. unfold __dict__.
  do 7 (rewrite (lookup_insert_ne _ _ k);
        [|intros <-; vm_compute in Hk; discriminate]).
  done.
Qed.

(** The result of [to_dict] in closed form. *)
Lemma to_dict_closed (e : t) :
  to_dict e =
    match attrs e !! EmptyString with
    | Some _ => Raise IndexError
    | None =>
        Ok (<["_" := PStr (_event_name e)]>
            (<["original_update" := original_update e]>
             (base.filter (fun kv => is_private kv.1 = false) (attrs e))))
    end.
Proof.
  destruct (attrs e !! EmptyString) as [v|] eqn:Ha.
  - unfold to_dict. rewrite public_items_raises; [done|].
    apply Exists_exists. exists (EmptyString, v). split; [|done].
    apply elem_of_map_to_list. unfold __dict__.
    by rewrite !lookup_insert_ne.
  - apply dict_no_empty_name in Ha.
    destruct (public_items_ok (map_to_list (__dict__ e))) as (d & Hd & Hlook).
    { apply Forall_forall. intros [k v] Hin Hk. simpl in Hk. subst k.
      apply elem_of_map_to_list in Hin. congruence. }
    rewrite list_to_map_to_list in Hlook.
    unfold to_dict. rewrite Hd. f_equal. apply map_eq. intros k.
    destruct (decide (k = "_")) as [->|Hk]; [by rewrite !lookup_insert_eq|].
    rewrite !(lookup_insert_ne _ "_") by done. rewrite Hlook.
    destruct (is_private k) eqn:Hp.
    + symmetry. rewrite lookup_insert_ne by (intros <-; done).
      apply map_lookup_filter_None. right. intros v _. simpl. congruence.
    + rewrite dict_public_lookup by done.
      destruct (decide (k = "original_update")) as [->|Ho].
      * by rewrite !lookup_insert_eq.
      * rewrite !lookup_insert_ne by done.
        destruct (attrs e !! k) as [v|] eqn:Hv; symmetry.
        -- by apply map_lookup_filter_Some.
        -- apply map_lookup_filter_None. by left.
Qed.

(** X11. [to_dict] raises exactly when some attribute of the instance has the
    empty name, and what it raises is [IndexError]. *)
Theorem to_dict_raises_on_empty_name (e : t) :
  (to_dict e = Raise IndexError <-> is_Some (attrs e !! EmptyString)) ∧
  (forall ex, to_dict e = Raise ex -> ex = IndexError).
Proof.
  rewrite to_dict_closed. destruct (attrs e !! EmptyString) as [v|]; split.
  - split; [eauto | done].
  - by intros ex [= <-].
  - split; [done | by intros [? ?]].
  - done.
Qed.

(** X12. The structured representation of a freshly constructed event holds
    the discriminator ["Event"] and [original_update] (still [None]) and
    nothing else, whatever the chat reference, message id and broadcast flag
    it was constructed with. *)
Theorem to_dict_fresh (chat_peer : option TLObject) (msg_id : option Z)
    (broadcast : bool) :
  to_dict (__init__ chat_peer msg_id broadcast) =
    Ok (<["_" := PStr "Event"]> {[ "original_update" := PNone ]}).
Proof.
  rewrite to_dict_closed. simpl. rewrite lookup_empty.
  by rewrite map_filter_empty.
Qed.
End to_dict_runs.

Section to_dict_binding.
Context `{Utils}.
Import EventCommon.

(** X13. Binding a client does not change the structured representation:
    [to_dict] gives the same answer after [_set_client] as before it,
    whatever the outcome of the binding. *)
Theorem to_dict_after_binding (c : Client) (e : t) (w : World) :
  to_dict (this (_set_client c {| this := e; world := w |}).2) = to_dict e.
Proof.
  destruct (set_client_frame c e w) as (_ & _ & _ & _ & _ & _ & Hu & Ha & Hn).
  by rewrite !to_dict_closed, Hu, Ha, Hn.
Qed.
End to_dict_binding.

(** ** More on naming the inner event class *)

Lemma name_inner_event_run (cls ev : positive) (s : Classes) (c inner : PyClass) :
  heap s !! cls = Some c ->
  Event c = Some ev ->
  heap s !! ev = Some inner ->
  name_inner_event cls s =
    (Ok cls,
     {| heap := <[ev := set_event_name (__name__ c +:+ ".Event") inner]> (heap s);
        warnings := warnings s |}).
Proof.
  intros Hcls Hev Hinner. unfold name_inner_event, bind, deref, ret.
  rewrite Hcls, Hev. simpl. unfold bind. by rewrite Hinner.
Qed.

(** X14. Applying [name_inner_event] a second time to a class with an inner
    [Event] changes nothing: same classes, same warnings, same return
    value. *)
Theorem name_inner_event_twice (cls ev : positive) (s : Classes) (c inner : PyClass) :
  heap s !! cls = Some c ->
  Event c = Some ev ->
  heap s !! ev = Some inner ->
  name_inner_event cls (name_inner_event cls s).2 =
    (Ok cls, (name_inner_event cls s).2).
Proof.
  intros Hcls Hev Hinner.
  rewrite (name_inner_event_run cls ev s c inner) by done. simpl.
  destruct (decide (cls = ev)) as [->|Hne].
  - assert (inner = c) as -> by congruence.
    rewrite (name_inner_event_run ev ev _
               (set_event_name (__name__ c +:+ ".Event") c)
               (set_event_name (__name__ c +:+ ".Event") c));
      [|by simpl; rewrite lookup_insert_eq|done|by simpl; rewrite lookup_insert_eq].
    simpl. by rewrite insert_insert_eq.
  - rewrite (name_inner_event_run cls ev _ c
               (set_event_name (__name__ c +:+ ".Event") inner));
      [|by simpl; rewrite lookup_insert_ne|done|by simpl; rewrite lookup_insert_eq].
    simpl. by rewrite insert_insert_eq.
Qed.

(** X15. When two classes have the same inner [Event] class (a subclass
    inherits it), decorating one and then the other leaves the inner class
    with the name of the second; neither call warns. *)
Theorem shared_inner_event_renamed_last (a b ev : positive) (s : Classes)
    (ca cb inner : PyClass) :
  heap s !! a = Some ca -> Event ca = Some ev ->
  heap s !! b = Some cb -> Event cb = Some ev ->
  heap s !! ev = Some inner ->
  b ≠ ev ->
  let s1 := (name_inner_event a s).2 in
  let s2 := (name_inner_event b s1).2 in
  (name_inner_event b s1).1 = Ok b ∧
  heap s2 !! ev = Some (set_event_name (__name__ cb +:+ ".Event") inner) ∧
  warnings s2 = warnings s.
Proof.
  intros Ha Hea Hb Heb Hinner Hne s1 s2. unfold s2, s1.
  rewrite (name_inner_event_run a ev s ca inner) by done. simpl.
  rewrite (name_inner_event_run b ev _ cb
             (set_event_name (__name__ ca +:+ ".Event") inner));
    [|by simpl; rewrite lookup_insert_ne|done|by simpl; rewrite lookup_insert_eq].
  simpl. by simpl; rewrite lookup_insert_eq.
Qed.

(** ** The further properties on concrete inputs *)

Lemma scope_is_union_witness :
  exists r,
    (_into_id_set (H := stub_utils) directory_client
       (ChatsList [SInt 123; SStr "me"; STL (PeerChat 5)]) empty_world).1
    = Ok (ChatsSet r).
Proof.
  apply (scope_is_union (H := stub_utils) directory_client
           (ChatsList [SInt 123; SStr "me"; STL (PeerChat 5)]) empty_world);
    [discriminate|].
  repeat constructor; eexists; reflexivity.
Defined.

Lemma local_specifiers_need_no_client_witness :
  _into_id_set (H := stub_utils) directory_client
    (ChatsList [SInt 123; STL (PeerChat 5); SInt (-4)]) empty_world
  = _into_id_set (H := stub_utils) offline_client
      (ChatsList [SInt 123; STL (PeerChat 5); SInt (-4)]) empty_world.
Proof.
  apply (local_specifiers_need_no_client (H := stub_utils)).
  repeat constructor.
Defined.

Lemma one_lookup_per_specifier_witness :
  let chats := ChatsList [SStr "durov"; SInt 5; SStr "me"; SStr "durov"] in
  let w' := (_into_id_set (H := stub_utils) directory_client chats empty_world).2 in
  calls w' = [CallGetInputEntity (SStr "durov"); CallGetInputEntity (SStr "me");
              CallGetMe true; CallGetInputEntity (SStr "durov")] ∧
  entity_lookups (calls w') = 3%nat.
Proof.
  intros chats.
  eapply (one_lookup_per_specifier (H := stub_utils) directory_client chats);
    [discriminate | reflexivity].
Defined.

Lemma marked_scope_is_kept_witness :
  let b := {| EventBuilder.chats := ChatsSet {[ -5; -1000000000123 ]};
              EventBuilder.blacklist_chats := false;
              EventBuilder._self_id := None |} in
  this (EventBuilder.resolve (H := stub_utils) (stub_client 7)
          {| this := b; world := empty_world |}).2 = b.
Proof.
  intros b.
  apply (marked_scope_is_kept (H := stub_utils) (stub_client 7) b empty_world
           {[ -5; -1000000000123 ]} eq_refl).
  intros x Hx. apply elem_of_union in Hx as [Hx|Hx];
    apply elem_of_singleton in Hx; lia.
Defined.

Lemma identity_failure_after_scope_witness :
  let b := EventBuilder.__init__ (ChatsList [SInt 5]) false in
  let o := EventBuilder.resolve (H := stub_utils) offline_client
             {| this := b; world := empty_world |} in
  o.1 = Raise (OtherError "ConnectionError") ∧
  EventBuilder.chats (this o.2) = ChatsSet (∅ ∪ {[ 15; 16; 17 ]}).
Proof.
  intros b o. unfold o.
  rewrite (identity_failure_after_scope (H := stub_utils) offline_client b
             empty_world empty_world (ChatsSet (∅ ∪ {[ 15; 16; 17 ]}))
             (OtherError "ConnectionError") eq_refl eq_refl eq_refl).
  split; reflexivity.
Defined.

Lemma resolved_filter_decision_witness :
  let b := EventBuilder.__init__ (ChatsList [SInt 123]) false in
  let b' := this (EventBuilder.resolve (H := stub_utils) (stub_client 7)
                    {| this := b; world := empty_world |}).2 in
  (EventBuilder.filter (H := stub_utils) (b', channel_event)).1
    = Ok (Some channel_event).
Proof.
  intros b.
  destruct (resolved_filter_decision (H := stub_utils) (stub_client 7) b
              empty_world channel_event (PeerChannel 123)
              ltac:(discriminate) eq_refl eq_refl) as [Hin _].
  apply Hin. exists (SInt 123), {[ 369; 370; 371 ]}.
  split; [constructor|]. split; [reflexivity|].
  apply elem_of_union_r, elem_of_singleton. reflexivity.
Defined.

Lemma session_error_caught_by_class_witness :
  (EventCommon._set_client (H := stub_utils) broken_session_client
     {| this := min_event; world := empty_world |}).1
    = Raise (OtherError "OperationalError") ∧
  (EventCommon._set_client (H := stub_utils) garbled_session_client
     {| this := min_event; world := empty_world |}).1
    = Ok tt.
Proof.
  split.
  - apply (session_error_caught_by_class (H := stub_utils) broken_session_client
             min_event empty_world (Channel 123 None)
             (OtherError "OperationalError") eq_refl eq_refl eq_refl).
    reflexivity.
  - apply (session_error_caught_by_class (H := stub_utils) garbled_session_client
             min_event empty_world (Channel 123 None)
             (Subclass ValueError "UnicodeDecodeError") eq_refl eq_refl eq_refl).
    reflexivity.
Defined.

Lemma name_inner_event_twice_witness :
  name_inner_event 1%positive (name_inner_event 1%positive two_classes).2
  = (Ok 1%positive, (name_inner_event 1%positive two_classes).2).
Proof.
  apply (name_inner_event_twice 1%positive 2%positive two_classes
           class_NewMessage
           class_Event);
    reflexivity.
Defined.

Lemma shared_inner_event_renamed_last_witness :
  let s1 := (name_inner_event 1%positive three_classes).2 in
  let s2 := (name_inner_event 3%positive s1).2 in
  class_event_name <$> heap s2 !! 2%positive = Some (Some "Album.Event").
Proof.
  destruct (shared_inner_event_renamed_last 1%positive 3%positive 2%positive
              three_classes
              class_NewMessage
              class_Album
              class_Event
              eq_refl eq_refl eq_refl eq_refl eq_refl ltac:(discriminate))
    as (_ & Hev & _).
  intros s1 s2. unfold s2, s1. rewrite Hev. reflexivity.
Defined.

(** ** Order and repetition of specifiers *)

Section scope_order.
Context `{Utils}.

(** X16. The scope does not depend on the order of the specifiers nor on how
    often each is given: two lists with the same elements that are resolved
    with the same client give the same scope, and one is resolved exactly
    when the other is. *)
Theorem scope_ignores_order (client : Client) (l1 l2 : list ChatSpec)
    (w1 w2 : World) :
  (forall s, s ∈ l1 <-> s ∈ l2) ->
  ((exists r, (_into_id_set client (ChatsList l1) w1).1 = Ok (ChatsSet r)) <->
   (exists r, (_into_id_set client (ChatsList l2) w2).1 = Ok (ChatsSet r))) ∧
  (forall r1 r2,
     (_into_id_set client (ChatsList l1) w1).1 = Ok (ChatsSet r1) ->
     (_into_id_set client (ChatsList l2) w2).1 = Ok (ChatsSet r2) ->
     r1 = r2).
Proof.
  intros Hsame. rewrite !into_id_set_fst by done.
  change (as_iterable (ChatsList l1)) with l1.
  change (as_iterable (ChatsList l2)) with l2.
  pose proof (into_id_loop_succeeds client l1 ∅ w1) as Hs1.
  pose proof (into_id_loop_succeeds client l2 ∅ w2) as Hs2.
  assert (Hall : Forall (fun c => exists ids, ids_of client c = Ok ids) l1 <->
                 Forall (fun c => exists ids, ids_of client c = Ok ids) l2).
  { rewrite !Forall_forall. split; intros Hf c Hc; apply Hf; by apply Hsame. }
  destruct (into_id_loop client l1 ∅ w1).1 as [r1|e1] eqn:H1;
    destruct (into_id_loop client l2 ∅ w2).1 as [r2|e2] eqn:H2; split.
  - split; intros _; eauto.
  - intros r1' r2' [= <-] [= <-]. apply set_eq. intros x.
    rewrite (into_id_loop_member _ _ _ _ _ H1 x).
    rewrite (into_id_loop_member _ _ _ _ _ H2 x).
    split; (intros [?|(c & ids & Hc & Hids & Hx)]; [by left|]);
      right; exists c, ids; (split; [by apply Hsame | done]).
  - exfalso. destruct (proj2 Hs2) as [r Hr]; [|done].
    apply Hall, Hs1. eauto.
  - done.
  - exfalso. destruct (proj2 Hs1) as [r Hr]; [|done].
    apply Hall, Hs2. eauto.
  - done.
  - split; by intros [? ?].
  - done.
Qed.
End scope_order.

Lemma scope_ignores_order_witness :
  (exists r, (_into_id_set (H := stub_utils) directory_client
                (ChatsList [SInt 5; SStr "durov"; SInt 5]) empty_world).1
             = Ok (ChatsSet r)) <->
  (exists r, (_into_id_set (H := stub_utils) directory_client
                (ChatsList [SStr "durov"; SInt 5]) empty_world).1
             = Ok (ChatsSet r)).
Proof.
  apply (scope_ignores_order (H := stub_utils) directory_client
           [SInt 5; SStr "durov"; SInt 5] [SStr "durov"; SInt 5]
           empty_world empty_world).
  intros s. rewrite !elem_of_cons, elem_of_nil. tauto.
Defined.
